(** * The construction gate of the authentication broker

    A shallow embedding of [astore/server/auth/factory.go]: the [Flags]
    record, the [Modifier]s ([WithFlags], [WithAuthURL], [WithTimeLimit],
    [WithCA], [WithPrincipals]) and the constructor [New].

    A Go [Modifier] is a function from a pointer to the [Server] to an
    [error]: it mutates the server it is handed and may return an error.
    Here it is a function from the server to the server it leaves behind
    together with the error, if any.  What the file calls in other
    packages (ssh, nacl/box, errors, fmt) is gathered in the class
    [External]. *)

From Stdlib Require Import ZArith String Ascii List Bool Lia.
From Stdlib.Strings Require Import Byte.
From stdpp Require Import base option list gmap strings.

Open Scope string_scope.

(** ** Go's [strings] package, as far as the factory uses it *)

Module GoStrings.

(** [s[n:]] on a Go string. *)
Fixpoint from (n : nat) (s : string) : string :=
  match n, s with
  | O, _ => s
  | S n', String _ s' => from n' s'
  | S _, EmptyString => EmptyString
  end.

(** [s[:n]] on a Go string. *)
Fixpoint upto (n : nat) (s : string) : string :=
  match n, s with
  | O, _ => EmptyString
  | S n', String c s' => String c (upto n' s')
  | S _, EmptyString => EmptyString
  end.

(** [strings.HasSuffix]:
    [len(s) >= len(suffix) && s[len(s)-len(suffix):] == suffix]. *)
Definition HasSuffix (s suffix : string) : bool :=
  (String.length suffix <=? String.length s)%nat
  && String.eqb (from (String.length s - String.length suffix) s) suffix.

(** [strings.TrimSuffix]: [s] without the trailing [suffix]; [s] itself
    when it does not end with [suffix]. *)
Definition TrimSuffix (s suffix : string) : string :=
  if HasSuffix s suffix
  then upto (String.length s - String.length suffix) s
  else s.

(** [strings.Split(s, sep)] for a separator of one byte, the only way the
    factory calls it: the substrings of [s] between the separators, in
    order.  A string with [n] separators gives [n + 1] substrings, so the
    empty string gives the one-element slice holding the empty string. *)
Fixpoint Split (s : string) (sep : ascii) : list string :=
  match s with
  | EmptyString => [EmptyString]
  | String c s' =>
      if Ascii.eqb c sep then EmptyString :: Split s' sep
      else match Split s' sep with
           | x :: xs => String c x :: xs
           | [] => [String c EmptyString]
           end
  end.

(** [strings.Join(elems, sep)] with a separator of one byte. *)
Fixpoint Join (elems : list string) (sep : ascii) : string :=
  match elems with
  | [] => EmptyString
  | [x] => x
  | x :: rest => x +:+ String sep (Join rest sep)
  end.

(** [strings.IndexByte(s, c) >= 0]. *)
Fixpoint ContainsByte (s : string) (c : ascii) : bool :=
  match s with
  | EmptyString => false
  | String d s' => Ascii.eqb d c || ContainsByte s' c
  end.

End GoStrings.

(** ** Go's [time.Duration]: a signed 64-bit count of nanoseconds *)

Module GoTime.

Definition Duration : Type := Z.

Definition Nanosecond : Duration := 1%Z.
Definition Microsecond : Duration := (1000 * Nanosecond)%Z.
Definition Millisecond : Duration := (1000 * Microsecond)%Z.
Definition Second : Duration := (1000 * Millisecond)%Z.
Definition Minute : Duration := (60 * Second)%Z.



End GoTime.

Import GoStrings GoTime.

(** ** What the factory uses and does not define

    The types and functions of other packages, and the two types of this
    repository whose declarations are in other files ([common.Key], the
    32-byte key, and [Jar], the pending session). *)

Class External : Type := {
  (** [math/rand.Rand]: the state of the generator. *)
  Rand : Type;
  (** [common.Key]. *)
  Key : Type;
  Key_eq_dec :: EqDecision Key;
  Key_countable :: Countable Key;
  (** [Jar], one pending authentication session. *)
  Jar : Type;
  (** [ssh.Signer] and [ssh.PublicKey]. *)
  Signer : Type;
  PublicKey : Type;
  (** Go's [error] values, with [errors.New] and [fmt.Errorf] applied to
      a format without verbs. *)
  error : Type;
  errors_New : string -> error;
  fmt_Errorf : string -> error;
  (** [box.GenerateKey(rng)]: reads from the generator, which it leaves
      advanced, and returns the public and the private key or an error. *)
  box_GenerateKey : Rand -> Rand * (Key * Key + error);
  (** [ssh.ParsePrivateKey]. *)
  ssh_ParsePrivateKey : list byte -> Signer + error;
  (** The method [PublicKey()] of an [ssh.Signer]. *)
  signer_PublicKey : Signer -> PublicKey;
  (** [ssh.MarshalAuthorizedKey]. *)
  ssh_MarshalAuthorizedKey : PublicKey -> list byte
}.

(** ** The factory *)

Section Factory.
Context `{External}.

Record Flags : Type := mkFlags {
  TimeLimit : Duration;
  AuthURL : string;
  Principals : string;
  CA : list byte
}.

(** [DefaultFlags]: every field but the time limit has Go's zero value. *)
Definition DefaultFlags : Flags :=
  {| TimeLimit := (Minute * 30)%Z; AuthURL := ""; Principals := ""; CA := [] |}.

(** Modelled from the spec: the declaration of [Server] is in another file
    of the package; these are the fields the factory reads and writes.
    The spec's data model names them: the broker identity keypair, the
    session jars keyed by client public key, the time limit, the external
    endpoint URL, the CA signing material with its public key in
    authorized-key form, and the principal set. *)
Record Server : Type := mkServer {
  rng : Rand;
  serverPub : Key;
  serverPriv : Key;
  jars : gmap Key Jar;
  limit : Duration;
  authURL : string;
  caSigner : option Signer;
  marshalledCAPublicKey : list byte;
  principals : list string
}.

Definition set_limit (v : Duration) (s : Server) : Server :=
  mkServer (rng s) (serverPub s) (serverPriv s) (jars s) v (authURL s)
           (caSigner s) (marshalledCAPublicKey s) (principals s).

Definition set_authURL (v : string) (s : Server) : Server :=
  mkServer (rng s) (serverPub s) (serverPriv s) (jars s) (limit s) v
           (caSigner s) (marshalledCAPublicKey s) (principals s).

Definition set_caSigner (v : option Signer) (s : Server) : Server :=
  mkServer (rng s) (serverPub s) (serverPriv s) (jars s) (limit s) (authURL s)
           v (marshalledCAPublicKey s) (principals s).

Definition set_marshalledCAPublicKey (v : list byte) (s : Server) : Server :=
  mkServer (rng s) (serverPub s) (serverPriv s) (jars s) (limit s) (authURL s)
           (caSigner s) v (principals s).

Definition set_principals (v : list string) (s : Server) : Server :=
  mkServer (rng s) (serverPub s) (serverPriv s) (jars s) (limit s) (authURL s)
           (caSigner s) (marshalledCAPublicKey s) v.

(** The type [Modifier], a function of the pointer to the server: the
    server as the call leaves it, and the error ([None] is Go's [nil]). *)
Definition Modifier : Type := Server -> Server * option error.

(** [return nil] and [return err]. *)
Definition ok (s : Server) : Server * option error := (s, None).
Definition fail (e : error) (s : Server) : Server * option error := (s, Some e).

(** [if err := m(s); err != nil { return err }; k(s)]. *)
Definition andThen (m k : Modifier) : Modifier :=
  fun s =>
    match m s with
    | (s', Some err) => (s', Some err)
    | (s', None) => k s'
    end.

Notation "m ;> k" := (andThen m k) (at level 62, right associativity).

(** [WithAuthURL] supplies the URL to send users to for authentication. *)
Definition WithAuthURL (url : string) : Modifier :=
  fun s => ok (set_authURL url s).

Definition WithTimeLimit (lim : Duration) : Modifier :=
  fun s => ok (set_limit lim s).

Definition WithCA (fileContent : list byte) : Modifier :=
  fun server =>
    match ssh_ParsePrivateKey fileContent with
    | inr err => fail err server
    | inl signer =>
        let server := set_caSigner (Some signer) server in
        let server :=
          set_marshalledCAPublicKey
            (ssh_MarshalAuthorizedKey (signer_PublicKey signer)) server in
        ok server
    end.

(** The server [WithCA] leaves when the key parsed: both assignments of
    its last lines. *)
Definition withSigner (signer : Signer) (s : Server) : Server :=
  set_marshalledCAPublicKey
    (ssh_MarshalAuthorizedKey (signer_PublicKey signer))
    (set_caSigner (Some signer) s).

Definition errNoPrincipals : error :=
  errors_New "there cannot be 0 principals in the auth server".

Definition WithPrincipals (raw : string) : Modifier :=
  fun server =>
    let splitString := Split raw "," in
    if (length splitString =? 0)%nat
       || ((length splitString =? 1)%nat && String.eqb (nth 0 splitString "") "")
    then fail errNoPrincipals server
    else ok (set_principals splitString server).

Definition errFlagsAuthURL : error :=
  fmt_Errorf "an auth-url must be supplied using the --auth-url parameter".

(** The check that ends [WithFlags]. *)
Definition checkFlagsAuthURL : Modifier :=
  fun s =>
    if String.eqb (authURL s) "" || String.eqb (authURL s) "/"
    then fail errFlagsAuthURL s
    else ok s.

Definition WithFlags (f : Flags) : Modifier :=
  WithTimeLimit (TimeLimit f) ;>
  WithAuthURL (AuthURL f) ;>
  WithCA (CA f) ;>
  WithPrincipals (Principals f) ;>
  checkFlagsAuthURL.

(** [for _, m := range mods { if err := m(s); err != nil { return nil, err } }]:
    the server as the loop leaves it and the error that stopped it. *)
Fixpoint applyMods (mods : list Modifier) (s : Server) : Server * option error :=
  match mods with
  | [] => (s, None)
  | m :: rest =>
      match m s with
      | (s', Some err) => (s', Some err)
      | (s', None) => applyMods rest s'
      end
  end.

(** The server [New] builds before it applies the modifiers: the fields it
    does not name have Go's zero values. *)
Definition initialServer (r : Rand) (pub priv : Key) : Server :=
  {| rng := r; serverPub := pub; serverPriv := priv; jars := ∅;
     limit := (30 * Minute)%Z; authURL := ""; caSigner := None;
     marshalledCAPublicKey := []; principals := [] |}.

Definition errNoAuthURL : error :=
  fmt_Errorf "API usage error - an authentication URL must be set".

(** [New] returns the pointer to the server and the error; a nil pointer
    and a nil error are [None]. *)
Definition New (r : Rand) (mods : list Modifier) : option Server * option error :=
  match box_GenerateKey r with
  | (_, inr err) => (None, Some err)
  | (r', inl (pub, priv)) =>
      match applyMods mods (initialServer r' pub priv) with
      | (_, Some err) => (None, Some err)
      | (s, None) =>
          let s := set_authURL (TrimSuffix (authURL s) "/") s in
          if String.eqb (authURL s) ""
          then (None, Some errNoAuthURL)
          else (Some s, None)
      end
  end.

(** ** What a modifier is and what it leaves alone *)

(** The modifiers the factory builds. *)
Inductive FactoryModifier : Modifier -> Prop :=
  | FromWithFlags (f : Flags) : FactoryModifier (WithFlags f)
  | FromWithAuthURL (url : string) : FactoryModifier (WithAuthURL url)
  | FromWithTimeLimit (lim : Duration) : FactoryModifier (WithTimeLimit lim)
  | FromWithCA (fileContent : list byte) : FactoryModifier (WithCA fileContent)
  | FromWithPrincipals (raw : string) : FactoryModifier (WithPrincipals raw).

(** The two ways the factory is handed the endpoint URL [u]. *)
Inductive SuppliesURL (u : string) : Modifier -> Prop :=
  | ViaWithAuthURL : SuppliesURL u (WithAuthURL u)
  | ViaWithFlags (f : Flags) : AuthURL f = u -> SuppliesURL u (WithFlags f).

(** The modifier never writes the field: whatever it returns, the server
    it leaves has the field as it found it. *)
Definition keeps {A : Type} (field : Server -> A) (m : Modifier) : Prop :=
  forall s, field (fst (m s)) = field s.

(** The modifier returns no error on any server. *)
Definition neverFails (m : Modifier) : Prop :=
  forall s, snd (m s) = None.

End Factory.

Notation "m ;> k" := (andThen m k) (at level 62, right associativity).

(** ** [Flags.Register] *)

Module Registration.

(** The field of [Flags] a flag writes, the pointer [Register] hands to
    the flag set. *)
Inductive FlagsField : Type :=
  | FieldTimeLimit
  | FieldAuthURL
  | FieldPrincipals
  | FieldCA.

(** Modelled from the spec: [kflags.FlagSet] is an interface declared in
    another package of the repository.  A flag set is taken to be the
    flags registered on it so far, in order: each call of [DurationVar],
    [StringVar] and [ByteFileVar] adds one, with the arguments of the
    call. *)
Inductive FlagVar : Type :=
  | DurationVar (target : FlagsField) (name : string) (value : Duration)
                (usage : string)
  | StringVar (target : FlagsField) (name : string) (value : string)
              (usage : string)
  | ByteFileVar (target : FlagsField) (name : string) (defaultFile : string)
                (usage : string).

Definition FlagSet : Type := list FlagVar.

Definition flagName (v : FlagVar) : string :=
  match v with
  | DurationVar _ name _ _ => name
  | StringVar _ name _ _ => name
  | ByteFileVar _ name _ _ => name
  end.

Definition flagTarget (v : FlagVar) : FlagsField :=
  match v with
  | DurationVar target _ _ _ => target
  | StringVar target _ _ _ => target
  | ByteFileVar target _ _ _ => target
  end.

(** The double quote, which the usage of the principals flag holds. *)
Definition quote : string := String (Ascii.ascii_of_nat 34) "".

Definition usageTimeLimit : string :=
  "How long to wait at most for the user to complete authentication, before freeing resources".

Definition usagePrincipals : string :=
  "Authorized ssh users which the ability to auth, in a comma separated string e.g. "
  +:+ quote +:+ "john,root,admin,smith" +:+ quote.

Definition usageCA : string := "Path to the certificate authority private file".

(** [f.Register(set, prefix)]: the flag set after the three calls.  The
    pointer the method returns is [f] itself. *)
Definition Register (f : Flags) (set : FlagSet) (prefix : string) : FlagSet :=
  let set :=
    (set ++ [DurationVar FieldTimeLimit (prefix +:+ "time-limit") (TimeLimit f)
               usageTimeLimit])%list in
  let set :=
    (set ++ [StringVar FieldPrincipals (prefix +:+ "principals") (Principals f)
               usagePrincipals])%list in
  let set :=
    (set ++ [ByteFileVar FieldCA (prefix +:+ "ca") "/etc/ssh/ca.pem" usageCA])%list in
  set.

End Registration.

(** ** Predicates on servers and strings used below *)

Section Predicates.
Context `{External}.

(** The number of bytes of [s] equal to [c]. *)
Fixpoint countByte (s : string) (c : ascii) : nat :=
  match s with
  | EmptyString => O
  | String d s' => (if Ascii.eqb d c then 1 else 0) + countByte s' c
  end.

(** The marshalled public key is the one of the signer the server holds,
    and there is none while there is no signer. *)
Definition caConsistent (s : Server) : Prop :=
  match caSigner s with
  | Some signer =>
      marshalledCAPublicKey s = ssh_MarshalAuthorizedKey (signer_PublicKey signer)
  | None => marshalledCAPublicKey s = []
  end.

(** The principals were never set, or are the split of a non-empty
    string. *)
Definition principalsWellFormed (s : Server) : Prop :=
  principals s = [] \/
  exists raw, raw <> "" /\ principals s = Split raw ",".

(** The four modifiers [WithFlags] applies, as a list for [New]. *)
Definition flagModifiers (f : Flags) : list Modifier :=
  [WithTimeLimit (TimeLimit f); WithAuthURL (AuthURL f); WithCA (CA f);
   WithPrincipals (Principals f)].

End Predicates.

(** ** A small instance of [External] on which the factory runs

    The generator is a counter: at [0] it has nothing left to read and key
    generation fails, otherwise it hands out two consecutive numbers as the
    keypair.  A private key parses when its file is not empty; its public
    key is the file reversed, marshalled as it is. *)

Module Sample.

Definition GenerateKey (r : nat) : nat * (nat * nat + string) :=
  match r with
  | O => (O, inr "unexpected EOF")
  | S _ => ((r + 2)%nat, inl (r, S r))
  end.

Definition ParsePrivateKey (b : list byte) : list byte + string :=
  match b with
  | [] => inr "ssh: no key found"
  | _ :: _ => inl b
  end.

Definition external : External :=
  {| Rand := nat; Key := nat; Jar := unit;
     Signer := list byte; PublicKey := list byte;
     error := string;
     errors_New := fun msg => msg;
     fmt_Errorf := fun msg => msg;
     box_GenerateKey := GenerateKey;
     ssh_ParsePrivateKey := ParsePrivateKey;
     signer_PublicKey := @rev byte;
     ssh_MarshalAuthorizedKey := fun k => k |}.

Definition caFile : list byte := [x2d; x2d; x50; x45; x4d].

Definition flags (url raw : string) (ca : list byte) : @Flags :=
  {| TimeLimit := (5 * Minute)%Z; AuthURL := url; Principals := raw; CA := ca |}.

(** The server [New] starts from when the generator is at [1]. *)
Definition server0 : @Server external := @initialServer external 3%nat 1%nat 2%nat.

End Sample.

(** ** Facts about the [strings] functions *)

Module GoStringsFacts.

Lemma app_nil_l (w : string) : "" +:+ w = w.
Proof. reflexivity. Qed.

Lemma app_cons (c : ascii) (v w : string) : String c v +:+ w = String c (v +:+ w).
Proof. reflexivity. Qed.

(** stdpp keeps [simpl] from unfolding the append of strings. *)
Ltac sapp := rewrite ?app_cons, ?app_nil_l in *; simpl in *.

Lemma length_app (v w : string) :
  String.length (v +:+ w) = (String.length v + String.length w)%nat.
Proof. induction v as [|c v IH]; sapp; [reflexivity | now rewrite IH]. Qed.

Lemma from_app (v w : string) : from (String.length v) (v +:+ w) = w.
Proof. induction v as [|c v IH]; sapp; [now destruct w | exact IH]. Qed.

Lemma upto_app (v w : string) : upto (String.length v) (v +:+ w) = v.
Proof. induction v as [|c v IH]; sapp; [now destruct w | now rewrite IH]. Qed.

Lemma upto_from (n : nat) (s : string) : upto n s +:+ from n s = s.
Proof.
  revert s; induction n as [|n IH]; intros [|c s]; simpl; try reflexivity.
  now rewrite app_cons, IH.
Qed.

Lemma HasSuffix_app (v suffix : string) : HasSuffix (v +:+ suffix) suffix = true.
Proof.
  unfold HasSuffix. rewrite length_app.
  replace (String.length v + String.length suffix - String.length suffix)%nat
    with (String.length v) by lia.
  rewrite from_app, String.eqb_refl, andb_true_r.
  apply Nat.leb_le; lia.
Qed.

Lemma HasSuffix_inv (s suffix : string) :
  HasSuffix s suffix = true ->
  s = upto (String.length s - String.length suffix) s +:+ suffix.
Proof.
  unfold HasSuffix. intros Hs. apply andb_true_iff in Hs as [_ Hs].
  apply String.eqb_eq in Hs.
  remember (String.length s - String.length suffix)%nat as n eqn:Hn. clear Hn.
  rewrite <- Hs. symmetry. apply upto_from.
Qed.

(** [HasSuffix s suffix] holds exactly when [s] is some string followed by
    [suffix]. *)
Lemma HasSuffix_spec (s suffix : string) :
  HasSuffix s suffix = true <-> exists v, s = v +:+ suffix.
Proof.
  split.
  - intros Hs. eexists. now apply HasSuffix_inv.
  - intros [v ->]. apply HasSuffix_app.
Qed.

(** A string that ends with the suffix loses it. *)
Lemma TrimSuffix_app (v suffix : string) : TrimSuffix (v +:+ suffix) suffix = v.
Proof.
  unfold TrimSuffix. rewrite HasSuffix_app, length_app.
  replace (String.length v + String.length suffix - String.length suffix)%nat
    with (String.length v) by lia.
  apply upto_app.
Qed.

(** A string that does not end with the suffix is left as it is. *)
Lemma TrimSuffix_other (s suffix : string) :
  (forall v, s <> v +:+ suffix) -> TrimSuffix s suffix = s.
Proof.
  intros Hne. unfold TrimSuffix.
  destruct (HasSuffix s suffix) eqn:Hs; [|reflexivity].
  apply HasSuffix_spec in Hs as [v ->]. now destruct (Hne v).
Qed.

(** Stripping the trailing slash leaves nothing exactly for the empty
    string and for the root path. *)
Lemma TrimSuffix_slash_empty (u : string) :
  TrimSuffix u "/" = "" <-> u = "" \/ u = "/".
Proof.
  split.
  - intros Ht. destruct (HasSuffix u "/") eqn:Hs.
    + apply HasSuffix_spec in Hs as [v ->]. rewrite TrimSuffix_app in Ht.
      subst v. now right.
    + unfold TrimSuffix in Ht. rewrite Hs in Ht. now left.
  - intros [-> | ->]; reflexivity.
Qed.

Lemma Split_not_nil (s : string) (sep : ascii) : Split s sep <> [].
Proof.
  destruct s as [|c s]; simpl; [discriminate|].
  destruct (Ascii.eqb c sep); [discriminate|].
  destruct (Split s sep); discriminate.
Qed.

(** Only the empty string splits into the single empty substring. *)
Lemma Split_single_empty (s : string) (sep : ascii) :
  Split s sep = [""] <-> s = "".
Proof.
  split; [|now intros ->].
  destruct s as [|c s]; simpl; [reflexivity|].
  destruct (Ascii.eqb c sep).
  - intros Hs. injection Hs as Hs. now destruct (Split_not_nil s sep).
  - destruct (Split s sep); discriminate.
Qed.

(** Joining the substrings with the separator gives the string back. *)
Lemma Join_Split (s : string) (sep : ascii) : Join (Split s sep) sep = s.
Proof.
  induction s as [|c s IH]; simpl; [reflexivity|].
  pose proof (Split_not_nil s sep) as Hn.
  destruct (Ascii.eqb c sep) eqn:Hc.
  - apply Ascii.eqb_eq in Hc as ->.
    destruct (Split s sep) as [|x xs]; [now destruct Hn|].
    change (Join ("" :: x :: xs) sep) with ("" +:+ String sep (Join (x :: xs) sep)).
    now rewrite app_nil_l, IH.
  - destruct (Split s sep) as [|x xs]; [now destruct Hn|].
    destruct xs as [|y ys].
    + simpl in *. now rewrite IH.
    + change (Join (String c x :: y :: ys) sep)
        with (String c x +:+ String sep (Join (y :: ys) sep)).
      change (Join (x :: y :: ys) sep)
        with (x +:+ String sep (Join (y :: ys) sep)) in IH.
      now rewrite app_cons, IH.
Qed.

(** No substring holds the separator. *)
Lemma Split_no_sep (s : string) (sep : ascii) :
  Forall (fun x => ContainsByte x sep = false) (Split s sep).
Proof.
  induction s as [|c s IH]; simpl.
  - now repeat constructor.
  - destruct (Ascii.eqb c sep) eqn:Hc.
    + constructor; [reflexivity | exact IH].
    + destruct (Split s sep) as [|x xs]; simpl.
      * repeat constructor. simpl. now rewrite Hc.
      * inversion IH as [|? ? Hx Hxs]; subst.
        constructor; [simpl; now rewrite Hc | exact Hxs].
Qed.

Lemma Split_app_sep (x rest : string) (sep : ascii) :
  ContainsByte x sep = false ->
  Split (x +:+ String sep rest) sep = x :: Split rest sep.
Proof.
  induction x as [|c x IH]; intros Hx.
  - rewrite app_nil_l. simpl. now rewrite Ascii.eqb_refl.
  - simpl in Hx. apply orb_false_iff in Hx as [Hc Hx].
    rewrite app_cons. simpl. rewrite Hc, (IH Hx). reflexivity.
Qed.

Lemma Split_no_sep_id (x : string) (sep : ascii) :
  ContainsByte x sep = false -> Split x sep = [x].
Proof.
  induction x as [|c x IH]; simpl; intros Hx; [reflexivity|].
  apply orb_false_iff in Hx as [Hc Hx]. now rewrite Hc, (IH Hx).
Qed.

(** The split is the only non-empty list of separator-free strings that
    joins to the string. *)
Lemma Split_Join (elems : list string) (sep : ascii) :
  elems <> [] ->
  Forall (fun x => ContainsByte x sep = false) elems ->
  Split (Join elems sep) sep = elems.
Proof.
  induction elems as [|x rest IH]; intros Hne Hall; [now destruct Hne|].
  inversion Hall as [|? ? Hx Hrest]; subst.
  destruct rest as [|y rest'].
  - simpl. now apply Split_no_sep_id.
  - change (Join (x :: y :: rest') sep)
      with (x +:+ String sep (Join (y :: rest') sep)).
    rewrite (Split_app_sep _ _ _ Hx), IH; [reflexivity | discriminate | exact Hrest].
Qed.

Example Split_commas : Split "john,root,,smith" "," = ["john"; "root"; ""; "smith"].
Proof. reflexivity. Qed.

Example Split_empty : Split "" "," = [""].
Proof. reflexivity. Qed.

Example Split_lone_comma : Split "," "," = [""; ""].
Proof. reflexivity. Qed.

Example TrimSuffix_url :
  TrimSuffix "https://auth.example.com/" "/" = "https://auth.example.com".
Proof. reflexivity. Qed.

Example TrimSuffix_once : TrimSuffix "//" "/" = "/".
Proof. reflexivity. Qed.

Example TrimSuffix_longer_suffix : TrimSuffix "a" "abc" = "a".
Proof. reflexivity. Qed.

End GoStringsFacts.

(** ** Facts about the factory *)

Create HintDb factory discriminated.

Section FactoryFacts.
Context `{External}.

Import GoStringsFacts.

(** The loop over a concatenation runs the first part and, when that
    returned no error, the second part on the server it left. *)
Lemma applyMods_app (pre post : list Modifier) (s : Server) :
  applyMods (pre ++ post) s =
    match applyMods pre s with
    | (s', Some err) => (s', Some err)
    | (s', None) => applyMods post s'
    end.
Proof.
  revert s. induction pre as [|m pre IH]; intros s; simpl; [reflexivity|].
  destruct (m s) as [s' [err|]]; [reflexivity | apply IH].
Qed.

Lemma applyMods_cons (m : Modifier) (rest : list Modifier) (s : Server) :
  applyMods (m :: rest) s =
    match m s with
    | (s', Some err) => (s', Some err)
    | (s', None) => applyMods rest s'
    end.
Proof. reflexivity. Qed.

(** A field no modifier of the list writes is, after the loop, what it
    was before, whether the loop ran to its end or stopped at an error. *)
Lemma applyMods_keeps {A : Type} (field : Server -> A)
      (mods : list Modifier) (s : Server) :
  Forall (keeps field) mods -> field (fst (applyMods mods s)) = field s.
Proof.
  intros Hall. revert s.
  induction Hall as [|m rest Hm _ IH]; intros s; simpl; [reflexivity|].
  specialize (Hm s). destruct (m s) as [s' [err|]]; simpl in *.
  - exact Hm.
  - now rewrite IH.
Qed.

Lemma andThen_keeps {A : Type} (field : Server -> A) (m k : Modifier) :
  keeps field m -> keeps field k -> keeps field (m ;> k).
Proof.
  intros Hm Hk s. unfold andThen. specialize (Hm s).
  destruct (m s) as [s' [err|]]; simpl in *; [exact Hm|].
  now rewrite Hk.
Qed.

(** The condition [WithPrincipals] tests holds for the empty string only. *)
Lemma principals_check (raw : string) :
  (length (Split raw ",") =? 0)%nat
  || ((length (Split raw ",") =? 1)%nat && String.eqb (nth 0 (Split raw ",") "") "")
  = String.eqb raw "".
Proof.
  destruct raw as [|c raw]; [reflexivity|].
  pose proof (Split_not_nil (String c raw) ",") as Hnil.
  pose proof (Split_single_empty (String c raw) ",") as Hone.
  destruct (Split (String c raw) ",") as [|x [|y l]]; simpl.
  - now destruct Hnil.
  - destruct x as [|d x]; [|reflexivity].
    destruct Hone as [Hone _]. now specialize (Hone eq_refl).
  - reflexivity.
Qed.

Lemma WithPrincipals_eq (raw : string) (s : Server) :
  WithPrincipals raw s =
    if String.eqb raw "" then (s, Some errNoPrincipals)
    else (set_principals (Split raw ",") s, None).
Proof. unfold WithPrincipals. now rewrite principals_check. Qed.

Lemma WithCA_eq (fileContent : list byte) (s : Server) :
  WithCA fileContent s =
    match ssh_ParsePrivateKey fileContent with
    | inr err => (s, Some err)
    | inl signer => (withSigner signer s, None)
    end.
Proof. unfold WithCA. now destruct (ssh_ParsePrivateKey fileContent). Qed.

(** [WithFlags], step by step. *)
Lemma WithFlags_eq (f : Flags) (s : Server) :
  WithFlags f s =
    let s1 := set_authURL (AuthURL f) (set_limit (TimeLimit f) s) in
    match ssh_ParsePrivateKey (CA f) with
    | inr err => (s1, Some err)
    | inl signer =>
        let s2 := withSigner signer s1 in
        if String.eqb (Principals f) "" then (s2, Some errNoPrincipals)
        else
          let s3 := set_principals (Split (Principals f) ",") s2 in
          if String.eqb (AuthURL f) "" || String.eqb (AuthURL f) "/"
          then (s3, Some errFlagsAuthURL)
          else (s3, None)
    end.
Proof.
  unfold WithFlags, andThen at 1 2.
  unfold WithTimeLimit, WithAuthURL, ok.
  unfold andThen at 1. rewrite WithCA_eq.
  destruct (ssh_ParsePrivateKey (CA f)) as [signer|err]; [|reflexivity].
  unfold andThen. rewrite WithPrincipals_eq.
  destruct (String.eqb (Principals f) ""); reflexivity.
Qed.

End FactoryFacts.

(** ** Which fields each modifier leaves alone *)

Section Frames.
Context `{External}.

Import GoStringsFacts.

Ltac frame :=
  intros s;
  repeat first
    [ rewrite WithFlags_eq | rewrite WithCA_eq | rewrite WithPrincipals_eq ];
  cbv beta zeta;
  unfold WithAuthURL, WithTimeLimit, checkFlagsAuthURL, ok, fail;
  repeat match goal with
    | |- context [match ?x with _ => _ end] => destruct x
    end;
  reflexivity.

Lemma WithAuthURL_keeps_limit (url : string) : keeps limit (WithAuthURL url).
Proof. frame. Qed.

Lemma WithAuthURL_keeps_jars (url : string) : keeps jars (WithAuthURL url).
Proof. frame. Qed.

Lemma WithAuthURL_keeps_CA (url : string) :
  keeps marshalledCAPublicKey (WithAuthURL url).
Proof. frame. Qed.

Lemma WithTimeLimit_keeps_authURL (lim : Duration) :
  keeps authURL (WithTimeLimit lim).
Proof. frame. Qed.

Lemma WithTimeLimit_keeps_jars (lim : Duration) : keeps jars (WithTimeLimit lim).
Proof. frame. Qed.

Lemma WithTimeLimit_keeps_CA (lim : Duration) :
  keeps marshalledCAPublicKey (WithTimeLimit lim).
Proof. frame. Qed.

Lemma WithCA_keeps_limit (b : list byte) : keeps limit (WithCA b).
Proof. frame. Qed.

Lemma WithCA_keeps_authURL (b : list byte) : keeps authURL (WithCA b).
Proof. frame. Qed.

Lemma WithCA_keeps_jars (b : list byte) : keeps jars (WithCA b).
Proof. frame. Qed.

Lemma WithPrincipals_keeps_limit (raw : string) : keeps limit (WithPrincipals raw).
Proof. frame. Qed.

Lemma WithPrincipals_keeps_authURL (raw : string) :
  keeps authURL (WithPrincipals raw).
Proof. frame. Qed.

Lemma WithPrincipals_keeps_jars (raw : string) : keeps jars (WithPrincipals raw).
Proof. frame. Qed.

Lemma WithPrincipals_keeps_CA (raw : string) :
  keeps marshalledCAPublicKey (WithPrincipals raw).
Proof. frame. Qed.

Lemma WithFlags_keeps_jars (f : Flags) : keeps jars (WithFlags f).
Proof. frame. Qed.

(** No modifier of the factory touches the session jars. *)
Lemma FactoryModifier_keeps_jars (m : Modifier) :
  FactoryModifier m -> keeps jars m.
Proof.
  intros [f | url | lim | b | raw].
  - apply WithFlags_keeps_jars.
  - apply WithAuthURL_keeps_jars.
  - apply WithTimeLimit_keeps_jars.
  - apply WithCA_keeps_jars.
  - apply WithPrincipals_keeps_jars.
Qed.

(** The two setters return no error, whatever they are given. *)
Lemma WithTimeLimit_neverFails (lim : Duration) : neverFails (WithTimeLimit lim).
Proof. intros s. reflexivity. Qed.

Lemma WithAuthURL_neverFails (url : string) : neverFails (WithAuthURL url).
Proof. intros s. reflexivity. Qed.

(** A modifier that supplies the URL and returns no error leaves it in
    the server. *)
Lemma SuppliesURL_sets (u : string) (m : Modifier) (s s' : Server) :
  SuppliesURL u m -> m s = (s', None) -> authURL s' = u.
Proof.
  intros [|f Hf].
  - unfold WithAuthURL, ok. intros [= <-]. reflexivity.
  - rewrite WithFlags_eq. cbv zeta.
    destruct (ssh_ParsePrivateKey (CA f)); [|discriminate].
    destruct (String.eqb (Principals f) ""); [discriminate|].
    destruct (String.eqb (AuthURL f) "" || String.eqb (AuthURL f) "/");
      [discriminate|].
    intros [= <-]. exact Hf.
Qed.

End Frames.

#[export] Hint Resolve WithAuthURL_keeps_limit WithAuthURL_keeps_jars
  WithAuthURL_keeps_CA WithTimeLimit_keeps_authURL WithTimeLimit_keeps_jars
  WithTimeLimit_keeps_CA WithCA_keeps_limit WithCA_keeps_authURL
  WithCA_keeps_jars WithPrincipals_keeps_limit WithPrincipals_keeps_authURL
  WithPrincipals_keeps_jars WithPrincipals_keeps_CA WithFlags_keeps_jars
  : factory.

(** ** What [New] returns *)

Section Constructor.
Context `{External}.

Import GoStringsFacts.

(** [New] returns a server and no error, or no server and an error. *)
Lemma New_result (r : Rand) (mods : list Modifier) :
  (exists s, New r mods = (Some s, None)) \/
  (exists e, New r mods = (None, Some e)).
Proof.
  unfold New.
  destruct (box_GenerateKey r) as [r' [[pub priv]|err]]; [|right; eauto].
  destruct (applyMods mods (initialServer r' pub priv)) as [s [err|]];
    [right; eauto|].
  cbv zeta.
  destruct (String.eqb (authURL (set_authURL _ s)) ""); [right | left]; eauto.
Qed.

(** A server [New] returns is the one the modifiers left, with the
    trailing slash of its URL stripped, and that URL is not empty. *)
Lemma New_Some (r : Rand) (mods : list Modifier) (s : Server) (oe : option error) :
  New r mods = (Some s, oe) ->
  exists r' pub priv s',
    box_GenerateKey r = (r', inl (pub, priv)) /\
    applyMods mods (initialServer r' pub priv) = (s', None) /\
    s = set_authURL (TrimSuffix (authURL s') "/") s' /\
    TrimSuffix (authURL s') "/" <> "" /\
    oe = None.
Proof.
  unfold New.
  destruct (box_GenerateKey r) as [r' [[pub priv]|err]]; [|discriminate].
  destruct (applyMods mods (initialServer r' pub priv)) as [s' [err|]] eqn:Hm;
    [discriminate|].
  cbv zeta.
  destruct (String.eqb (authURL (set_authURL _ s')) "") eqn:Hu; [discriminate|].
  intros [= <- <-]. exists r', pub, priv, s'.
  split; [reflexivity|]. split; [exact Hm|]. split; [reflexivity|].
  split; [|reflexivity].
  simpl in Hu. now apply String.eqb_neq in Hu.
Qed.

(** The error that stops the loop is the error [New] returns. *)
Lemma New_loop_error (r r' : Rand) (pub priv : Key) (mods : list Modifier)
      (s : Server) (e : error) :
  box_GenerateKey r = (r', inl (pub, priv)) ->
  applyMods mods (initialServer r' pub priv) = (s, Some e) ->
  New r mods = (None, Some e).
Proof. intros Hk Hm. unfold New. now rewrite Hk, Hm. Qed.

(** The first modifier that fails ends the loop: the server is as that
    modifier left it, whatever follows in the list. *)
Lemma applyMods_first_error (pre post : list Modifier) (m : Modifier)
      (s0 s1 s2 : Server) (e : error) :
  applyMods pre s0 = (s1, None) ->
  m s1 = (s2, Some e) ->
  applyMods (pre ++ m :: post) s0 = (s2, Some e).
Proof.
  intros Hpre Hm. now rewrite applyMods_app, Hpre, applyMods_cons, Hm.
Qed.

(** A modifier that fails on every server makes [New] fail, wherever it
    stands in the list. *)
Lemma New_failing_modifier (r : Rand) (pre post : list Modifier) (m : Modifier) :
  (forall s, exists e, snd (m s) = Some e) ->
  exists e, New r (pre ++ m :: post) = (None, Some e).
Proof.
  intros Hm.
  destruct (New_result r (pre ++ m :: post)) as [[s Hs]|He]; [|exact He].
  apply New_Some in Hs as (r' & pub & priv & s' & _ & Hs & _).
  rewrite applyMods_app in Hs.
  destruct (applyMods pre (initialServer r' pub priv)) as [s1 [e|]];
    [discriminate|].
  rewrite applyMods_cons in Hs. destruct (Hm s1) as [e He].
  destruct (m s1) as [s2 [e'|]]; simpl in He; discriminate.
Qed.

(** When every run of the modifiers that ends without error leaves a URL
    that strips to the empty string, [New] returns an error. *)
Lemma New_rejects_url (r : Rand) (mods : list Modifier) :
  (forall r' pub priv s',
     box_GenerateKey r = (r', inl (pub, priv)) ->
     applyMods mods (initialServer r' pub priv) = (s', None) ->
     TrimSuffix (authURL s') "/" = "") ->
  exists e, New r mods = (None, Some e).
Proof.
  intros Hurl.
  destruct (New_result r mods) as [[s Hs]|He]; [|exact He].
  apply New_Some in Hs as (r' & pub & priv & s' & Hk & Hs & _ & Hne & _).
  destruct Hne. eapply Hurl; eassumption.
Qed.

(** The URL in the server after a list that supplies [u] and then leaves
    the URL alone. *)
Lemma applyMods_supplied_url (pre post : list Modifier) (m : Modifier)
      (u : string) (s0 s' : Server) :
  SuppliesURL u m ->
  Forall (keeps authURL) post ->
  applyMods (pre ++ m :: post) s0 = (s', None) ->
  authURL s' = u.
Proof.
  intros Hm Hpost Hrun. rewrite applyMods_app in Hrun.
  destruct (applyMods pre s0) as [s1 [e|]]; [discriminate|].
  rewrite applyMods_cons in Hrun.
  destruct (m s1) as [s2 [e|]] eqn:Hm1; [discriminate|].
  pose proof (applyMods_keeps authURL post s2 Hpost) as Hk.
  rewrite Hrun in Hk. simpl in Hk. rewrite Hk.
  eapply SuppliesURL_sets; eassumption.
Qed.

End Constructor.

(** ** The construction gate: the properties of the specification *)

Section ConstructionGate.
Context `{External}.

Import GoStringsFacts.

(** After a successful key generation, [New] on the one modifier
    [WithAuthURL u] returns an error for the empty URL and the root path,
    and a server for every other URL. *)
Lemma New_WithAuthURL_error_iff
    (r r' : Rand) (pub priv : Key) (u : string) :
  box_GenerateKey r = (r', inl (pub, priv)) ->
  (exists e, New r [WithAuthURL u] = (None, Some e)) <-> (u = "" \/ u = "/").
Proof.
  intros Hk. unfold New. rewrite Hk. simpl.
  rewrite <- TrimSuffix_slash_empty.
  destruct (String.eqb_spec (TrimSuffix u "/") "") as [Hu|Hu].
  - split; [auto | eauto].
  - split; [intros [e He]; discriminate | intros Ht; now destruct Hu].
Qed.

(** C1, as the code has it: when the endpoint URL [u], supplied through
    [WithAuthURL] or through the flags of [WithFlags], is empty or is
    exactly the root path (so that stripping its trailing slash leaves
    the empty string), and no later modifier writes the URL, [New]
    returns an error and no server; [WithFlags] with such a URL returns
    an error by itself. *)
Theorem C1_empty_or_root_url_rejected
    (r : Rand) (pre post : list Modifier) (m : Modifier) (u : string) :
  u = "" \/ u = "/" ->
  SuppliesURL u m ->
  Forall (keeps authURL) post ->
  (exists e, New r (pre ++ m :: post) = (None, Some e)) /\
  (forall f s, AuthURL f = u -> exists e, snd (WithFlags f s) = Some e).
Proof.
  intros Hu Hm Hpost. split.
  - apply New_rejects_url. intros r' pub priv s' _ Hrun.
    rewrite (applyMods_supplied_url pre post m u _ s' Hm Hpost Hrun).
    now apply TrimSuffix_slash_empty.
  - intros f s Hf. rewrite WithFlags_eq. cbv zeta.
    destruct (ssh_ParsePrivateKey (CA f)); [|eauto].
    destruct (String.eqb (Principals f) ""); [eauto|].
    assert (String.eqb (AuthURL f) "" || String.eqb (AuthURL f) "/" = true) as ->.
    { rewrite Hf. destruct Hu as [-> | ->]; reflexivity. }
    eauto.
Qed.

(** C2: [WithPrincipals] applied to the empty principal string returns the
    error of zero principals and leaves the server alone; [New] with that
    modifier anywhere among its modifiers returns an error and no server,
    and that very error when key generation and the modifiers before it
    succeeded. *)
Theorem C2_zero_principals_fatal
    (r : Rand) (pre post : list Modifier) (s : Server) :
  WithPrincipals "" s = (s, Some errNoPrincipals) /\
  (exists e, New r (pre ++ WithPrincipals "" :: post) = (None, Some e)) /\
  (forall r' pub priv s1,
     box_GenerateKey r = (r', inl (pub, priv)) ->
     applyMods pre (initialServer r' pub priv) = (s1, None) ->
     New r (pre ++ WithPrincipals "" :: post) = (None, Some errNoPrincipals)).
Proof.
  split; [reflexivity|]. split.
  - apply New_failing_modifier. intros s'. now exists errNoPrincipals.
  - intros r' pub priv s1 Hk Hpre.
    apply (New_loop_error r r' pub priv _ s1 _ Hk).
    now apply (applyMods_first_error pre post _ _ s1).
Qed.

(** C3: when [New] succeeds on the endpoint URL [u] (supplied through
    [WithAuthURL] or [WithFlags], no later modifier writing the URL), the
    server's [authURL] is [u] with its trailing slash stripped: without
    the final slash when [u] ends with one, [u] itself otherwise. *)
Theorem C3_authURL_trailing_slash_stripped
    (r : Rand) (pre post : list Modifier) (m : Modifier) (u : string)
    (s : Server) :
  SuppliesURL u m ->
  Forall (keeps authURL) post ->
  New r (pre ++ m :: post) = (Some s, None) ->
  authURL s = TrimSuffix u "/" /\
  (forall v, u = v +:+ "/" -> authURL s = v) /\
  ((forall v, u <> v +:+ "/") -> authURL s = u).
Proof.
  intros Hm Hpost Hnew.
  apply New_Some in Hnew as (r' & pub & priv & s' & _ & Hrun & -> & _).
  rewrite <- (applyMods_supplied_url pre post m u _ s' Hm Hpost Hrun).
  simpl. split; [reflexivity|]. split.
  - intros v ->. apply TrimSuffix_app.
  - intros Hv. now apply TrimSuffix_other.
Qed.

(** C4: when [ssh.ParsePrivateKey] fails on the CA key bytes, [WithCA]
    returns that error and leaves the server alone, [WithFlags] on flags
    with these bytes returns it too, and [New] with that modifier returns
    an error and no server: that very error when key generation and the
    modifiers before it succeeded. *)
Theorem C4_unparsable_CA_fatal
    (r : Rand) (pre post : list Modifier) (b : list byte) (e : error)
    (s : Server) :
  ssh_ParsePrivateKey b = inr e ->
  WithCA b s = (s, Some e) /\
  (forall f, CA f = b -> snd (WithFlags f s) = Some e) /\
  (exists e', New r (pre ++ WithCA b :: post) = (None, Some e')) /\
  (forall r' pub priv s1,
     box_GenerateKey r = (r', inl (pub, priv)) ->
     applyMods pre (initialServer r' pub priv) = (s1, None) ->
     New r (pre ++ WithCA b :: post) = (None, Some e)).
Proof.
  intros Hparse.
  assert (forall s', WithCA b s' = (s', Some e)) as Hca.
  { intros s'. now rewrite WithCA_eq, Hparse. }
  split; [apply Hca|]. split; [|split].
  - intros f <-. now rewrite WithFlags_eq, Hparse.
  - apply New_failing_modifier. intros s'. exists e. now rewrite Hca.
  - intros r' pub priv s1 Hk Hpre.
    apply (New_loop_error r r' pub priv _ s1 _ Hk).
    apply (applyMods_first_error pre post _ _ s1 s1 e Hpre), Hca.
Qed.

(** C5: when [box.GenerateKey] fails on the random source, [New] returns
    that error and no server whatever the modifiers are: none of them is
    reached, so none decides the result. *)
Theorem C5_keygen_failure_fatal
    (r r' : Rand) (e : error) (mods : list Modifier) :
  box_GenerateKey r = (r', inr e) ->
  New r mods = (None, Some e).
Proof.
  intros Hk. unfold New. rewrite Hk. reflexivity.
Qed.

(** C6, as the code has it: [New] applies the modifiers in order and
    returns the first error, the server being as the failing modifier
    left it whatever follows; [WithFlags] sets the time limit and the URL,
    then parses the CA key, then splits the principals, then checks the
    URL.  The two setters never fail; the CA step, the principal step and
    the final check are the ones that do, in that order. *)
Theorem C6_ordered_application (f : Flags) (s : Server) :
  (forall r r' pub priv pre m post s1 s2 e,
     box_GenerateKey r = (r', inl (pub, priv)) ->
     applyMods pre (initialServer r' pub priv) = (s1, None) ->
     m s1 = (s2, Some e) ->
     applyMods (pre ++ m :: post) (initialServer r' pub priv) = (s2, Some e) /\
     New r (pre ++ m :: post) = (None, Some e)) /\
  neverFails (WithTimeLimit (TimeLimit f)) /\
  neverFails (WithAuthURL (AuthURL f)) /\
  (forall e,
     ssh_ParsePrivateKey (CA f) = inr e ->
     WithFlags f s =
       (set_authURL (AuthURL f) (set_limit (TimeLimit f) s), Some e)) /\
  (forall signer,
     ssh_ParsePrivateKey (CA f) = inl signer ->
     Principals f = "" ->
     WithFlags f s =
       (withSigner signer (set_authURL (AuthURL f) (set_limit (TimeLimit f) s)),
        Some errNoPrincipals)) /\
  (forall signer,
     ssh_ParsePrivateKey (CA f) = inl signer ->
     Principals f <> "" ->
     WithFlags f s =
       (set_principals (Split (Principals f) ",")
          (withSigner signer
             (set_authURL (AuthURL f) (set_limit (TimeLimit f) s))),
        if String.eqb (AuthURL f) "" || String.eqb (AuthURL f) "/"
        then Some errFlagsAuthURL else None)).
Proof.
  split; [|split; [|split; [|split; [|split]]]].
  - intros r r' pub priv pre m post s1 s2 e Hk Hpre Hm.
    pose proof (applyMods_first_error pre post m _ s1 s2 e Hpre Hm) as Hrun.
    split; [exact Hrun|]. exact (New_loop_error r r' pub priv _ s2 e Hk Hrun).
  - apply WithTimeLimit_neverFails.
  - apply WithAuthURL_neverFails.
  - intros e Hparse. now rewrite WithFlags_eq, Hparse.
  - intros signer Hparse Hraw. now rewrite WithFlags_eq, Hparse, Hraw.
  - intros signer Hparse Hraw. rewrite WithFlags_eq, Hparse. cbv zeta.
    apply String.eqb_neq in Hraw. rewrite Hraw.
    now destruct (String.eqb (AuthURL f) "" || String.eqb (AuthURL f) "/").
Qed.


(** C8: when the CA key bytes parse to a signer, [WithCA] returns no
    error and leaves that signer in the server together with the
    authorized-key marshalling of the signer's public key; a server [New]
    returns after that modifier, no later one writing the field, exposes
    that marshalled key. *)
Theorem C8_CA_public_key_exposed
    (b : list byte) (signer : Signer) (s : Server) :
  ssh_ParsePrivateKey b = inl signer ->
  (exists s',
     WithCA b s = (s', None) /\
     caSigner s' = Some signer /\
     marshalledCAPublicKey s' =
       ssh_MarshalAuthorizedKey (signer_PublicKey signer)) /\
  (forall r pre post srv,
     Forall (keeps marshalledCAPublicKey) post ->
     New r (pre ++ WithCA b :: post) = (Some srv, None) ->
     marshalledCAPublicKey srv =
       ssh_MarshalAuthorizedKey (signer_PublicKey signer)).
Proof.
  intros Hparse. split.
  - exists (withSigner signer s). rewrite WithCA_eq, Hparse. now repeat split.
  - intros r pre post srv Hpost Hnew.
    apply New_Some in Hnew as (r' & pub & priv & s' & _ & Hrun & -> & _).
    rewrite applyMods_app in Hrun.
    destruct (applyMods pre (initialServer r' pub priv)) as [s1 [e|]];
      [discriminate|].
    rewrite applyMods_cons, WithCA_eq, Hparse in Hrun.
    pose proof (applyMods_keeps marshalledCAPublicKey post
                  (withSigner signer s1) Hpost) as Hk.
    rewrite Hrun in Hk. exact Hk.
Qed.

(** C9: [WithPrincipals raw] returns an error exactly when [raw] is the
    empty string, and then leaves the principals of the server as they
    were; for every other [raw] it returns no error and the principals of
    the server it leaves are the split of [raw] on commas, its other
    fields being untouched.  The split is the one list of comma-free
    strings that joins back to [raw] and may hold empty names: after a
    lone comma the server has two of them. *)
Theorem C9_WithPrincipals_spec (raw : string) (s : Server) :
  (snd (WithPrincipals raw s) <> None <-> raw = "") /\
  (raw = "" -> WithPrincipals raw s = (s, Some errNoPrincipals)) /\
  (raw <> "" ->
     WithPrincipals raw s = (set_principals (Split raw ",") s, None)) /\
  (raw = "" -> principals (fst (WithPrincipals raw s)) = principals s) /\
  (raw <> "" -> principals (fst (WithPrincipals raw s)) = Split raw ",") /\
  (rng (fst (WithPrincipals raw s)) = rng s /\
   serverPub (fst (WithPrincipals raw s)) = serverPub s /\
   serverPriv (fst (WithPrincipals raw s)) = serverPriv s /\
   jars (fst (WithPrincipals raw s)) = jars s /\
   limit (fst (WithPrincipals raw s)) = limit s /\
   authURL (fst (WithPrincipals raw s)) = authURL s /\
   caSigner (fst (WithPrincipals raw s)) = caSigner s /\
   marshalledCAPublicKey (fst (WithPrincipals raw s)) = marshalledCAPublicKey s) /\
  Join (Split raw ",") "," = raw /\
  Forall (fun x => ContainsByte x "," = false) (Split raw ",") /\
  (forall elems,
     elems <> [] ->
     Forall (fun x => ContainsByte x "," = false) elems ->
     Join elems "," = raw ->
     Split raw "," = elems) /\
  WithPrincipals "," s = (set_principals [""; ""] s, None) /\
  principals (fst (WithPrincipals "," s)) = [""; ""].
Proof.
  rewrite WithPrincipals_eq.
  destruct (String.eqb_spec raw "") as [Hraw|Hraw].
  - split; [split; [auto | discriminate]|].
    split; [reflexivity|]. split; [intros Hne; now destruct Hne|].
    split; [reflexivity|]. split; [intros Hne; now destruct Hne|].
    split; [now repeat split|].
    split; [apply Join_Split|]. split; [apply Split_no_sep|].
    split; [|split; reflexivity].
    intros elems Hne Hall <-. now apply Split_Join.
  - split; [split; [intros Hn; now destruct Hn | intros ->; now destruct Hraw]|].
    split; [intros ->; now destruct Hraw|]. split; [reflexivity|].
    split; [intros ->; now destruct Hraw|]. split; [reflexivity|].
    split; [now repeat split|].
    split; [apply Join_Split|]. split; [apply Split_no_sep|].
    split; [|split; reflexivity].
    intros elems Hne Hall <-. now apply Split_Join.
Qed.

(** C10: a server [New] returns from modifiers of the factory has no jar:
    immediately after construction the jars map is empty, every lookup in
    it gives nothing. *)
Theorem C10_jars_empty (r : Rand) (mods : list Modifier) (s : Server) :
  Forall FactoryModifier mods ->
  New r mods = (Some s, None) ->
  jars s = ∅ /\ (forall k : Key, jars s !! k = None) /\ size (jars s) = 0%nat.
Proof.
  intros Hmods Hnew.
  apply New_Some in Hnew as (r' & pub & priv & s' & _ & Hrun & -> & _).
  assert (Forall (keeps jars) mods) as Hkeep.
  { clear Hrun. induction Hmods as [|m rest Hm _ IH]; [constructor|].
    constructor; [now apply FactoryModifier_keeps_jars | exact IH]. }
  pose proof (applyMods_keeps jars mods (initialServer r' pub priv) Hkeep) as Hk.
  rewrite Hrun in Hk. simpl in Hk. simpl. rewrite Hk.
  split; [reflexivity|]. split; [intros k; apply lookup_empty | apply map_size_empty].
Qed.

End ConstructionGate.

(** ** The construction gate on the sample instance *)

Section SampleRuns.

#[local] Existing Instance Sample.external.

Import Sample.

(** C1 as the specification words it fails on the URL of two slashes:
    stripping its trailing slash leaves the root path, which is not
    empty, and [New] returns a server whose URL is the root path, through
    [WithAuthURL] and through [WithFlags] alike. *)
Lemma C1_double_slash_accepted :
  TrimSuffix "//" "/" = "/" /\
  (exists s, New 1%nat [WithAuthURL "//"] = (Some s, None) /\ authURL s = "/") /\
  (exists s,
     New 1%nat [WithFlags (flags "//" "alice,bob" caFile)] = (Some s, None) /\
     authURL s = "/").
Proof.
  split; [reflexivity|].
  split; eexists; (split; [vm_compute; reflexivity | reflexivity]).
Qed.

Lemma C1_witness :
  (exists e,
     New 1%nat ([WithTimeLimit Minute] ++ WithAuthURL "/" :: [WithPrincipals "alice"])
     = (None, Some e)) /\
  (forall f s, AuthURL f = "/" -> exists e, snd (WithFlags f s) = Some e).
Proof.
  apply (@C1_empty_or_root_url_rejected external 1%nat [WithTimeLimit Minute]
           [WithPrincipals "alice"] (WithAuthURL "/") "/").
  - right. reflexivity.
  - constructor.
  - constructor; [apply WithPrincipals_keeps_authURL | constructor].
Defined.

Lemma C2_witness :
  New 1%nat ([WithAuthURL "https://auth.example.com"] ++ WithPrincipals ""
               :: [WithTimeLimit Minute])
  = (None, Some errNoPrincipals).
Proof.
  destruct (@C2_zero_principals_fatal external 1%nat
              [WithAuthURL "https://auth.example.com"] [WithTimeLimit Minute]
              server0) as (_ & _ & Hnew).
  eapply (Hnew 3%nat 1%nat 2%nat); reflexivity.
Defined.

Lemma C3_witness :
  exists s,
    New 1%nat ([] ++ WithFlags (flags "https://auth.example.com/" "alice,bob" caFile)
                 :: [WithTimeLimit Minute])
    = (Some s, None) /\
    authURL s = "https://auth.example.com".
Proof.
  eexists. split; [vm_compute; reflexivity|].
  refine (proj1 (proj2 (@C3_authURL_trailing_slash_stripped external 1%nat []
              [WithTimeLimit Minute]
              (WithFlags (flags "https://auth.example.com/" "alice,bob" caFile))
              "https://auth.example.com/" _ _ _ _))
            "https://auth.example.com" _).
  - constructor. reflexivity.
  - constructor; [apply WithTimeLimit_keeps_authURL | constructor].
  - vm_compute. reflexivity.
  - reflexivity.
Defined.

Lemma C4_witness :
  New 1%nat ([WithAuthURL "https://auth.example.com"] ++ WithCA []
               :: [WithPrincipals "alice"])
  = (None, Some "ssh: no key found").
Proof.
  destruct (@C4_unparsable_CA_fatal external 1%nat
              [WithAuthURL "https://auth.example.com"] [WithPrincipals "alice"]
              [] "ssh: no key found" server0)
    as (_ & _ & _ & Hnew).
  - reflexivity.
  - eapply (Hnew 3%nat 1%nat 2%nat); reflexivity.
Defined.

Lemma C5_witness :
  New 0%nat [WithFlags (flags "https://auth.example.com" "alice" caFile)]
  = (None, Some "unexpected EOF").
Proof.
  apply (@C5_keygen_failure_fatal external 0%nat 0%nat). reflexivity.
Defined.

(** C6 as the specification words it fails on the two setters: no time
    limit and no URL makes [WithTimeLimit] or [WithAuthURL] return an
    error, on any server. *)
Lemma C6_setters_cannot_fail :
  ~ (exists (lim : Duration) (s : Server) (e : error),
       snd (WithTimeLimit lim s) = Some e) /\
  ~ (exists (url : string) (s : Server) (e : error),
       snd (WithAuthURL url s) = Some e).
Proof.
  split.
  - intros (lim & s & e & He). now rewrite WithTimeLimit_neverFails in He.
  - intros (url & s & e & He). now rewrite WithAuthURL_neverFails in He.
Qed.

(** With every flag wrong, the error is the one of the CA key, the first
    step that can fail; with the key right, the one of the principals;
    with both right, the one of the URL. *)
Lemma C6_witness :
  snd (WithFlags (flags "" "" []) server0)
    = Some "ssh: no key found" /\
  snd (WithFlags (flags "" "" caFile) server0)
    = Some errNoPrincipals /\
  snd (WithFlags (flags "" "alice" caFile) server0)
    = Some errFlagsAuthURL /\
  New 1%nat ([WithAuthURL "https://auth.example.com"] ++ WithPrincipals ""
               :: [WithCA []])
    = (None, Some errNoPrincipals).
Proof.
  split; [|split; [|split]].
  - destruct (@C6_ordered_application external (flags "" "" [])
                server0) as (_ & _ & _ & Hca & _).
    rewrite (Hca "ssh: no key found"); reflexivity.
  - destruct (@C6_ordered_application external (flags "" "" caFile)
                server0) as (_ & _ & _ & _ & Hp & _).
    rewrite (Hp caFile); reflexivity.
  - destruct (@C6_ordered_application external (flags "" "alice" caFile)
                server0) as (_ & _ & _ & _ & _ & Hu).
    rewrite (Hu caFile); [reflexivity | reflexivity | discriminate].
  - destruct (@C6_ordered_application external (flags "" "" [])
                server0) as (Hnew & _).
    eapply (Hnew 1%nat 3%nat 1%nat 2%nat
              [WithAuthURL "https://auth.example.com"] (WithPrincipals "")
              [WithCA []]); reflexivity.
Defined.



Lemma C8_witness :
  exists s,
    New 1%nat ([WithAuthURL "https://auth.example.com"] ++ WithCA caFile
                 :: [WithPrincipals "alice"]) = (Some s, None) /\
    marshalledCAPublicKey s = rev caFile.
Proof.
  eexists. split; [vm_compute; reflexivity|].
  destruct (@C8_CA_public_key_exposed external caFile caFile
              server0) as (_ & Hnew).
  - reflexivity.
  - apply (Hnew 1%nat [WithAuthURL "https://auth.example.com"]
             [WithPrincipals "alice"]).
    + constructor; [apply WithPrincipals_keeps_CA | constructor].
    + vm_compute. reflexivity.
Defined.

Lemma C9_witness :
  snd (WithPrincipals "alice,,bob" server0) = None /\
  principals (fst (WithPrincipals "alice,,bob" server0)) = ["alice"; ""; "bob"].
Proof.
  destruct (@C9_WithPrincipals_spec external "alice,,bob" server0)
    as (_ & _ & Hset & _ & Hprincipals & _).
  split.
  - rewrite Hset; [reflexivity | discriminate].
  - rewrite Hprincipals; [reflexivity | discriminate].
Defined.

Lemma C10_witness :
  exists s,
    New 1%nat [WithFlags (flags "https://auth.example.com/" "alice,bob" caFile);
               WithTimeLimit Minute] = (Some s, None) /\
    jars s = ∅.
Proof.
  eexists. split; [vm_compute; reflexivity|].
  apply (@C10_jars_empty external 1%nat
           [WithFlags (flags "https://auth.example.com/" "alice,bob" caFile);
            WithTimeLimit Minute]).
  - repeat constructor.
  - vm_compute. reflexivity.
Defined.

End SampleRuns.

(** ** More on splitting *)

Module GoStringsMore.

Import GoStringsFacts.

(** Splitting a string at one of its separators: the substrings before
    it followed by the substrings after it. *)
Lemma Split_at_sep (a b : string) (sep : ascii) :
  Split (a +:+ String sep b) sep = (Split a sep ++ Split b sep)%list.
Proof.
  induction a as [|c a IH].
  - rewrite app_nil_l. simpl. now rewrite Ascii.eqb_refl.
  - rewrite app_cons. simpl. rewrite IH.
    destruct (Ascii.eqb c sep); [reflexivity|].
    pose proof (Split_not_nil a sep) as Hn.
    destruct (Split a sep) as [|x xs]; [now destruct Hn | reflexivity].
Qed.

(** One substring more than there are separators. *)
Lemma length_Split (s : string) (sep : ascii) :
  length (Split s sep) = S (countByte s sep).
Proof.
  induction s as [|c s IH]; simpl; [reflexivity|].
  destruct (Ascii.eqb c sep); simpl; [now rewrite IH|].
  pose proof (Split_not_nil s sep) as Hn.
  destruct (Split s sep) as [|x xs]; [now destruct Hn | exact IH].
Qed.

Lemma app_inv_head (p a b : string) : p +:+ a = p +:+ b -> a = b.
Proof.
  induction p as [|c p IH]; [now rewrite !app_nil_l|].
  rewrite !app_cons. intros [= Hab]. now apply IH.
Qed.

Lemma app_assoc (a b c : string) : (a +:+ b) +:+ c = a +:+ (b +:+ c).
Proof.
  induction a as [|d a IH]; [now rewrite !app_nil_l|].
  now rewrite !app_cons, IH.
Qed.

End GoStringsMore.

(** ** Further properties of the factory *)

Section FactoryProperties.
Context `{External}.

Import GoStringsFacts GoStringsMore.

(** A field none of the five setters of [Server] writes is kept by every
    modifier of the factory. *)
Lemma FactoryModifier_keeps {A : Type} (field : Server -> A) (m : Modifier) :
  (forall v s, field (set_limit v s) = field s) ->
  (forall v s, field (set_authURL v s) = field s) ->
  (forall v s, field (set_caSigner v s) = field s) ->
  (forall v s, field (set_marshalledCAPublicKey v s) = field s) ->
  (forall v s, field (set_principals v s) = field s) ->
  FactoryModifier m -> keeps field m.
Proof.
  intros Hl Hu Hc Hm Hp [f | url | lim | b | raw] s.
  - rewrite WithFlags_eq. cbv zeta. unfold withSigner.
    destruct (ssh_ParsePrivateKey (CA f)); simpl; [|now rewrite Hu, Hl].
    destruct (String.eqb (Principals f) ""); simpl; [now rewrite Hm, Hc, Hu, Hl|].
    destruct (String.eqb (AuthURL f) "" || String.eqb (AuthURL f) "/"); simpl;
      now rewrite Hp, Hm, Hc, Hu, Hl.
  - apply Hu.
  - apply Hl.
  - rewrite WithCA_eq. unfold withSigner.
    destruct (ssh_ParsePrivateKey b); simpl; [now rewrite Hm, Hc | reflexivity].
  - rewrite WithPrincipals_eq.
    destruct (String.eqb raw ""); simpl; [reflexivity | apply Hp].
Qed.

Lemma Forall_FactoryModifier_keeps {A : Type} (field : Server -> A)
      (mods : list Modifier) :
  (forall m, FactoryModifier m -> keeps field m) ->
  Forall FactoryModifier mods -> Forall (keeps field) mods.
Proof.
  intros Hk Hmods. induction Hmods as [|m rest Hm _ IH]; [constructor|].
  constructor; [now apply Hk | exact IH].
Qed.

(** X1: [New] returns a server and a nil error, or a nil server and an
    error, never both or neither; and the URL of a server it returns is
    not empty, whatever the modifiers were. *)
Theorem New_server_xor_error (r : Rand) (mods : list Modifier) :
  (exists s, New r mods = (Some s, None) /\ authURL s <> "") \/
  (exists e, New r mods = (None, Some e)).
Proof.
  destruct (New_result r mods) as [[s Hs]|He]; [left | right; exact He].
  exists s. split; [exact Hs|].
  apply New_Some in Hs as (r' & pub & priv & s' & _ & _ & -> & Hne & _).
  exact Hne.
Qed.

(** X2: the server [New] returns from modifiers of the factory holds the
    keypair [box.GenerateKey] returned and the generator as that call left
    it: no modifier of the factory replaces them. *)
Theorem New_keeps_generated_keys (r : Rand) (mods : list Modifier) (s : Server) :
  Forall FactoryModifier mods ->
  New r mods = (Some s, None) ->
  exists r' pub priv,
    box_GenerateKey r = (r', inl (pub, priv)) /\
    rng s = r' /\ serverPub s = pub /\ serverPriv s = priv.
Proof.
  intros Hmods Hnew.
  apply New_Some in Hnew as (r' & pub & priv & s' & Hk & Hrun & -> & _).
  exists r', pub, priv. split; [exact Hk|].
  assert (forall (A : Type) (field : Server -> A),
             (forall m, FactoryModifier m -> keeps field m) ->
             field s' = field (initialServer r' pub priv)) as Hsame.
  { intros A field Hf.
    pose proof (applyMods_keeps field mods (initialServer r' pub priv)
                  (Forall_FactoryModifier_keeps field mods Hf Hmods)) as Hkeep.
    now rewrite Hrun in Hkeep. }
  simpl. repeat split.
  - apply (Hsame _ rng). intros m. now apply FactoryModifier_keeps.
  - apply (Hsame _ serverPub). intros m. now apply FactoryModifier_keeps.
  - apply (Hsame _ serverPriv). intros m. now apply FactoryModifier_keeps.
Qed.

(** X3: [WithFlags f] returns no error exactly when the CA bytes parse,
    the principal string is not empty and the URL is neither empty nor
    the root path; the flags of [DefaultFlags], left as they are, are
    therefore refused on every server. *)
Theorem WithFlags_succeeds_iff (f : Flags) (s : Server) :
  (snd (WithFlags f s) = None <->
     (exists signer, ssh_ParsePrivateKey (CA f) = inl signer) /\
     Principals f <> "" /\ AuthURL f <> "" /\ AuthURL f <> "/") /\
  snd (WithFlags DefaultFlags s) <> None.
Proof.
  assert (forall g : Flags,
            snd (WithFlags g s) = None <->
            (exists signer, ssh_ParsePrivateKey (CA g) = inl signer) /\
            Principals g <> "" /\ AuthURL g <> "" /\ AuthURL g <> "/") as Hiff.
  { intros g. rewrite WithFlags_eq. cbv zeta.
    destruct (ssh_ParsePrivateKey (CA g)) as [signer|err]; simpl.
    - destruct (String.eqb_spec (Principals g) "") as [Hp|Hp]; simpl.
      + split; [discriminate | intros (_ & Hn & _); now destruct Hn].
      + destruct (String.eqb_spec (AuthURL g) "") as [Hu|Hu]; simpl.
        * split; [discriminate | intros (_ & _ & Hn & _); now destruct Hn].
        * destruct (String.eqb_spec (AuthURL g) "/") as [Hr|Hr]; simpl.
          -- split; [discriminate | intros (_ & _ & _ & Hn); now destruct Hn].
          -- split; [intros _; eauto | reflexivity].
    - split; [discriminate | intros ([signer Hs] & _); discriminate]. }
  split; [apply Hiff|].
  intros Hnone. apply Hiff in Hnone as (_ & Hp & _). now destruct Hp.
Qed.

(** X4: a server [New] returns from [WithFlags f] alone is configured in
    full: its limit is the flags' time limit, its URL the flags' URL
    without its trailing slash, its principals the non-empty split of the
    principal string, and it holds the parsed signer with its marshalled
    public key and no jar. *)
Theorem New_WithFlags_server (r : Rand) (f : Flags) (s : Server) :
  New r [WithFlags f] = (Some s, None) ->
  limit s = TimeLimit f /\
  authURL s = TrimSuffix (AuthURL f) "/" /\
  principals s = Split (Principals f) "," /\
  principals s <> [] /\ principals s <> [""] /\
  (exists signer,
     ssh_ParsePrivateKey (CA f) = inl signer /\
     caSigner s = Some signer /\
     marshalledCAPublicKey s = ssh_MarshalAuthorizedKey (signer_PublicKey signer)) /\
  jars s = ∅.
Proof.
  intros Hnew.
  apply New_Some in Hnew as (r' & pub & priv & s' & _ & Hrun & -> & _).
  rewrite applyMods_cons, WithFlags_eq in Hrun. cbv zeta in Hrun.
  destruct (ssh_ParsePrivateKey (CA f)) as [signer|err]; [|discriminate].
  destruct (String.eqb_spec (Principals f) "") as [Hp|Hp]; [discriminate|].
  destruct (String.eqb (AuthURL f) "" || String.eqb (AuthURL f) "/");
    [discriminate|].
  simpl in Hrun. injection Hrun as <-. simpl.
  repeat split.
  - apply Split_not_nil.
  - intros Hs. now apply Split_single_empty in Hs.
  - exists signer. now repeat split.
Qed.

End FactoryProperties.

(** ** How the modifiers compose *)

Section Composition.
Context `{External}.

Import GoStringsFacts GoStringsMore.

(** Two lists of modifiers can stand for one another in [New] when, on
    every server, they return the same error and, without error, leave
    the same server. *)
Lemma New_replace (r : Rand) (pre l1 l2 post : list Modifier) :
  (forall s,
     snd (applyMods l1 s) = snd (applyMods l2 s) /\
     (snd (applyMods l1 s) = None -> fst (applyMods l1 s) = fst (applyMods l2 s))) ->
  New r (pre ++ l1 ++ post) = New r (pre ++ l2 ++ post).
Proof.
  intros Hsame. unfold New.
  destruct (box_GenerateKey r) as [r' [[pub priv]|err]]; [|reflexivity].
  rewrite !applyMods_app.
  destruct (applyMods pre (initialServer r' pub priv)) as [s1 [e|]];
    [reflexivity|].
  rewrite !applyMods_app. destruct (Hsame s1) as [Herr Hst].
  destruct (applyMods l1 s1) as [a [ea|]], (applyMods l2 s1) as [b [eb|]];
    simpl in *; try discriminate.
  - now injection Herr as ->.
  - now rewrite (Hst eq_refl).
Qed.

(** The four modifiers of [WithFlags], run by the loop of [New]. *)
Lemma applyMods_flagModifiers (f : Flags) (s : Server) :
  applyMods (flagModifiers f) s =
    let s1 := set_authURL (AuthURL f) (set_limit (TimeLimit f) s) in
    match ssh_ParsePrivateKey (CA f) with
    | inr err => (s1, Some err)
    | inl signer =>
        if String.eqb (Principals f) ""
        then (withSigner signer s1, Some errNoPrincipals)
        else (set_principals (Split (Principals f) ",") (withSigner signer s1),
              None)
    end.
Proof.
  unfold flagModifiers. cbn [applyMods WithTimeLimit WithAuthURL ok].
  rewrite WithCA_eq. cbv zeta.
  destruct (ssh_ParsePrivateKey (CA f)) as [signer|err]; [|reflexivity].
  rewrite WithPrincipals_eq.
  destruct (String.eqb (Principals f) ""); reflexivity.
Qed.

(** X5: in [New], [WithFlags f] and its four modifiers applied one by one
    build the same server, or none in both cases, when no later modifier
    writes the URL; the two calls return the same error as well unless
    the URL is empty or the root path, which [WithFlags] refuses with an
    error of its own. *)
Theorem WithFlags_as_separate_modifiers
    (r : Rand) (pre post : list Modifier) (f : Flags) :
  Forall (keeps authURL) post ->
  fst (New r (pre ++ WithFlags f :: post))
    = fst (New r (pre ++ flagModifiers f ++ post)) /\
  (AuthURL f <> "" -> AuthURL f <> "/" ->
   New r (pre ++ WithFlags f :: post) = New r (pre ++ flagModifiers f ++ post)).
Proof.
  intros Hpost. unfold New.
  destruct (box_GenerateKey r) as [r' [[pub priv]|err]]; [|now split].
  rewrite !applyMods_app.
  destruct (applyMods pre (initialServer r' pub priv)) as [s1 [e|]];
    [now split|].
  rewrite applyMods_app, applyMods_cons, WithFlags_eq, applyMods_flagModifiers.
  cbv zeta.
  destruct (ssh_ParsePrivateKey (CA f)) as [signer|err]; [|now split].
  destruct (String.eqb (Principals f) ""); [now split|].
  destruct (String.eqb_spec (AuthURL f) "") as [Hu|Hu];
    [|destruct (String.eqb_spec (AuthURL f) "/") as [Hr|Hr]]; simpl orb; cbv iota.
  - split; [|intros Hn1 Hn2; congruence].
    match goal with
    | |- context [applyMods post ?s3] =>
        pose proof (applyMods_keeps authURL post s3 Hpost) as Hk;
        destruct (applyMods post s3) as [s' [e|]]; [reflexivity|]
    end.
    simpl in Hk. simpl. rewrite Hk, Hu. reflexivity.
  - split; [|intros Hn1 Hn2; congruence].
    match goal with
    | |- context [applyMods post ?s3] =>
        pose proof (applyMods_keeps authURL post s3 Hpost) as Hk;
        destruct (applyMods post s3) as [s' [e|]]; [reflexivity|]
    end.
    simpl in Hk. simpl. rewrite Hk, Hr. reflexivity.
  - now split.
Qed.


(** X7: [WithTimeLimit] checks nothing: whatever the duration, zero and
    negative ones included, [New] returns a server whose limit it is. *)
Theorem WithTimeLimit_accepts_any_duration
    (r r' : Rand) (pub priv : Key) (u : string) (lim : Duration) :
  box_GenerateKey r = (r', inl (pub, priv)) ->
  u <> "" -> u <> "/" ->
  exists s,
    New r [WithAuthURL u; WithTimeLimit lim] = (Some s, None) /\ limit s = lim.
Proof.
  intros Hk Hu Hr. unfold New. rewrite Hk. simpl.
  destruct (String.eqb_spec (TrimSuffix u "/") "") as [Ht|Ht].
  - apply TrimSuffix_slash_empty in Ht as [Ht|Ht]; contradiction.
  - eexists. split; reflexivity.
Qed.

(** X8: every modifier of the factory is idempotent in [New]: giving it
    twice in a row is giving it once. *)
Theorem FactoryModifier_idempotent
    (r : Rand) (pre post : list Modifier) (m : Modifier) :
  FactoryModifier m ->
  New r (pre ++ [m; m] ++ post) = New r (pre ++ [m] ++ post).
Proof.
  intros Hm. apply New_replace. intros s. cbn [applyMods].
  destruct Hm as [f | url | lim | b | raw].
  - rewrite WithFlags_eq. cbv zeta.
    destruct (ssh_ParsePrivateKey (CA f)) as [signer|err] eqn:Hparse;
      [|now split].
    destruct (String.eqb (Principals f) "") eqn:Hp; [now split|].
    destruct (String.eqb (AuthURL f) "" || String.eqb (AuthURL f) "/") eqn:Hu;
      [now split|].
    rewrite WithFlags_eq, Hparse. cbv zeta. rewrite Hp, Hu. now split.
  - now split.
  - now split.
  - rewrite WithCA_eq.
    destruct (ssh_ParsePrivateKey b) as [signer|err] eqn:Hparse; [|now split].
    rewrite WithCA_eq, Hparse. now split.
  - rewrite WithPrincipals_eq.
    destruct (String.eqb raw "") eqn:Hraw; [now split|].
    rewrite WithPrincipals_eq, Hraw. now split.
Qed.

(** X9: of two modifiers of the same kind in a row the later one decides:
    a second URL or time limit replaces the first, and so do a second CA
    key and a second principal string once the first was accepted. *)
Theorem later_modifier_overrides
    (r : Rand) (pre post : list Modifier) :
  (forall u1 u2,
     New r (pre ++ [WithAuthURL u1; WithAuthURL u2] ++ post)
     = New r (pre ++ [WithAuthURL u2] ++ post)) /\
  (forall l1 l2,
     New r (pre ++ [WithTimeLimit l1; WithTimeLimit l2] ++ post)
     = New r (pre ++ [WithTimeLimit l2] ++ post)) /\
  (forall b1 b2 signer,
     ssh_ParsePrivateKey b1 = inl signer ->
     New r (pre ++ [WithCA b1; WithCA b2] ++ post)
     = New r (pre ++ [WithCA b2] ++ post)) /\
  (forall raw1 raw2,
     raw1 <> "" ->
     New r (pre ++ [WithPrincipals raw1; WithPrincipals raw2] ++ post)
     = New r (pre ++ [WithPrincipals raw2] ++ post)).
Proof.
  split; [|split; [|split]].
  - intros u1 u2. apply New_replace. intros s. now split.
  - intros l1 l2. apply New_replace. intros s. now split.
  - intros b1 b2 signer Hparse. apply New_replace. intros s.
    cbn [applyMods]. rewrite (WithCA_eq b1), Hparse, !WithCA_eq.
    destruct (ssh_ParsePrivateKey b2); now split.
  - intros raw1 raw2 Hraw. apply New_replace. intros s.
    apply String.eqb_neq in Hraw.
    cbn [applyMods]. rewrite (WithPrincipals_eq raw1), Hraw, !WithPrincipals_eq.
    destruct (String.eqb raw2 ""); now split.
Qed.

End Composition.

(** ** Order, principals, slashes, registration and invariants *)

Section Order.
Context `{External}.

Import GoStringsFacts GoStringsMore Registration.

(** As [New_replace], for the server alone: the two lists fail on the
    same servers and, where they do not, leave the same server. *)
Lemma New_replace_server (r : Rand) (pre l1 l2 post : list Modifier) :
  (forall s,
     (snd (applyMods l1 s) = None <-> snd (applyMods l2 s) = None) /\
     (snd (applyMods l1 s) = None -> fst (applyMods l1 s) = fst (applyMods l2 s))) ->
  fst (New r (pre ++ l1 ++ post)) = fst (New r (pre ++ l2 ++ post)).
Proof.
  intros Hsame. unfold New.
  destruct (box_GenerateKey r) as [r' [[pub priv]|err]]; [|reflexivity].
  rewrite !applyMods_app.
  destruct (applyMods pre (initialServer r' pub priv)) as [s1 [e|]];
    [reflexivity|].
  rewrite !applyMods_app. destruct (Hsame s1) as [[Hab Hba] Hst].
  destruct (applyMods l1 s1) as [a [ea|]], (applyMods l2 s1) as [b [eb|]];
    simpl in *.
  - reflexivity.
  - now specialize (Hba eq_refl).
  - now specialize (Hab eq_refl).
  - now rewrite (Hst eq_refl).
Qed.

(** X10: modifiers that write different fields can be given to [New] in
    either order.  The URL and the time limit commute with each other and
    with the CA key and the principals; the CA key and the principals
    commute as far as the server goes, and altogether unless both fail,
    when the one given first decides the error. *)
Theorem independent_modifiers_commute
    (r : Rand) (pre post : list Modifier)
    (u : string) (lim : Duration) (b : list byte) (raw : string) :
  New r (pre ++ [WithAuthURL u; WithTimeLimit lim] ++ post)
    = New r (pre ++ [WithTimeLimit lim; WithAuthURL u] ++ post) /\
  New r (pre ++ [WithAuthURL u; WithCA b] ++ post)
    = New r (pre ++ [WithCA b; WithAuthURL u] ++ post) /\
  New r (pre ++ [WithAuthURL u; WithPrincipals raw] ++ post)
    = New r (pre ++ [WithPrincipals raw; WithAuthURL u] ++ post) /\
  New r (pre ++ [WithTimeLimit lim; WithCA b] ++ post)
    = New r (pre ++ [WithCA b; WithTimeLimit lim] ++ post) /\
  New r (pre ++ [WithTimeLimit lim; WithPrincipals raw] ++ post)
    = New r (pre ++ [WithPrincipals raw; WithTimeLimit lim] ++ post) /\
  fst (New r (pre ++ [WithCA b; WithPrincipals raw] ++ post))
    = fst (New r (pre ++ [WithPrincipals raw; WithCA b] ++ post)) /\
  (raw <> "" \/ (exists signer, ssh_ParsePrivateKey b = inl signer) ->
   New r (pre ++ [WithCA b; WithPrincipals raw] ++ post)
     = New r (pre ++ [WithPrincipals raw; WithCA b] ++ post)).
Proof.
  repeat split.
  - apply New_replace. intros s. now split.
  - apply New_replace. intros s. cbn [applyMods WithAuthURL ok].
    rewrite !WithCA_eq. destruct (ssh_ParsePrivateKey b); now split.
  - apply New_replace. intros s. cbn [applyMods WithAuthURL ok].
    rewrite !WithPrincipals_eq. destruct (String.eqb raw ""); now split.
  - apply New_replace. intros s. cbn [applyMods WithTimeLimit ok].
    rewrite !WithCA_eq. destruct (ssh_ParsePrivateKey b); now split.
  - apply New_replace. intros s. cbn [applyMods WithTimeLimit ok].
    rewrite !WithPrincipals_eq. destruct (String.eqb raw ""); now split.
  - apply New_replace_server. intros s. cbn [applyMods].
    rewrite (WithCA_eq b s), (WithPrincipals_eq raw s).
    destruct (ssh_ParsePrivateKey b) as [signer|err] eqn:Hparse,
             (String.eqb raw "") eqn:Hraw;
      rewrite ?WithCA_eq, ?WithPrincipals_eq, ?Hparse, ?Hraw; simpl;
      repeat split; congruence.
  - intros Hone. apply New_replace. intros s. cbn [applyMods].
    rewrite (WithCA_eq b s), (WithPrincipals_eq raw s).
    destruct (ssh_ParsePrivateKey b) as [signer|err] eqn:Hparse,
             (String.eqb_spec raw "") as [Hraw|Hraw];
      rewrite ?WithCA_eq, ?WithPrincipals_eq, ?Hparse; simpl.
    + subst raw. now split.
    + apply String.eqb_neq in Hraw. rewrite Hraw. now split.
    + destruct Hone as [Hne | [signer Hs]]; [contradiction | discriminate].
    + now split.
Qed.

(** X11: a principal string with a comma in it is never refused, and its
    principals are those before the comma followed by those after it; a
    trailing comma therefore adds an empty principal at the end. *)
Theorem WithPrincipals_at_comma (a b : string) (s : Server) :
  WithPrincipals (a +:+ String "," b) s
    = (set_principals (Split a "," ++ Split b ",")%list s, None) /\
  WithPrincipals (a +:+ ",") s
    = (set_principals (Split a "," ++ [""])%list s, None) /\
  principals (fst (WithPrincipals (a +:+ String "," b) s))
    = (Split a "," ++ Split b ",")%list /\
  principals (fst (WithPrincipals (a +:+ ",") s))
    = (Split a "," ++ [""])%list.
Proof.
  assert (forall c, String.eqb (a +:+ String "," c) "" = false) as Hne.
  { intros c. apply String.eqb_neq. destruct a; discriminate. }
  repeat split; now rewrite WithPrincipals_eq, Hne, Split_at_sep.
Qed.

(** X12: when [WithPrincipals raw] returns no error, the server has one
    principal more than [raw] has commas, none of them holding a comma. *)
Theorem WithPrincipals_count (raw : string) (s s' : Server) :
  WithPrincipals raw s = (s', None) ->
  length (principals s') = S (countByte raw ",") /\
  Forall (fun p => countByte p "," = 0%nat) (principals s').
Proof.
  rewrite WithPrincipals_eq.
  destruct (String.eqb raw ""); [discriminate|].
  intros [= <-]. simpl. split; [apply length_Split|].
  eapply Forall_impl; [apply Split_no_sep|].
  intros p. induction p as [|c p IH]; simpl; [reflexivity|].
  destruct (Ascii.eqb c ","); simpl; [discriminate | exact IH].
Qed.

(** X13: [New] strips one trailing slash and no more: a URL that ends
    with two slashes is accepted and stored with one, whatever comes
    before them. *)
Theorem New_strips_one_slash_only
    (r r' : Rand) (pub priv : Key) (v : string) :
  box_GenerateKey r = (r', inl (pub, priv)) ->
  exists s,
    New r [WithAuthURL (v +:+ "//")] = (Some s, None) /\
    authURL s = v +:+ "/".
Proof.
  intros Hk. unfold New. rewrite Hk. simpl.
  assert (TrimSuffix (v +:+ "//") "/" = v +:+ "/") as Ht.
  { change "//" with ("/" +:+ "/"). rewrite <- app_assoc. apply TrimSuffix_app. }
  rewrite Ht.
  destruct (String.eqb_spec (v +:+ "/") "") as [He|He].
  - destruct v; discriminate.
  - eexists. split; reflexivity.
Qed.

(** X14: [Register] keeps the flags already in the set and adds three,
    in this order: the duration flag of the time limit, the string flag
    of the principals and the file flag of the CA key, whose default file
    is /etc/ssh/ca.pem.  Whatever the prefix, their names are different
    from one another and start with the prefix; the time limit and the
    principals have the values the flags hold as defaults; and no flag is
    registered for the URL. *)
Theorem Register_three_flags (f : Flags) (set : FlagSet) (prefix : string) :
  exists timeLimit princ ca,
    Register f set prefix = (set ++ [timeLimit; princ; ca])%list /\
    timeLimit = DurationVar FieldTimeLimit (prefix +:+ "time-limit") (TimeLimit f)
                  usageTimeLimit /\
    princ = StringVar FieldPrincipals (prefix +:+ "principals") (Principals f)
              usagePrincipals /\
    ca = ByteFileVar FieldCA (prefix +:+ "ca") "/etc/ssh/ca.pem" usageCA /\
    NoDup [flagName timeLimit; flagName princ; flagName ca] /\
    Forall (fun v => exists suffix, suffix <> "" /\ flagName v = prefix +:+ suffix)
           [timeLimit; princ; ca] /\
    Forall (fun v => flagTarget v <> FieldAuthURL) [timeLimit; princ; ca] /\
    (forall v, v ∈ Register f set prefix -> flagTarget v = FieldAuthURL -> v ∈ set).
Proof.
  eexists _, _, _. split.
  { unfold Register. cbv zeta. rewrite <- !List.app_assoc. reflexivity. }
  simpl. split; [reflexivity|]. split; [reflexivity|]. split; [reflexivity|].
  split; [|split; [|split]].
  - repeat constructor.
    + intros Hin. apply elem_of_cons in Hin as [Heq|Hin].
      * apply app_inv_head in Heq. discriminate.
      * apply elem_of_cons in Hin as [Heq|Hin];
          [apply app_inv_head in Heq; discriminate | inversion Hin].
    + intros Hin. apply elem_of_cons in Hin as [Heq|Hin];
        [apply app_inv_head in Heq; discriminate | inversion Hin].
    + intros Hin. inversion Hin.
  - repeat constructor; eexists; (split; [|reflexivity]); discriminate.
  - repeat constructor; discriminate.
  - intros v Hin Htarget. unfold Register in Hin. cbv zeta in Hin.
    rewrite !elem_of_app, !list_elem_of_singleton in Hin.
    destruct Hin as [[[Hin | ->] | ->] | ->];
      [exact Hin | discriminate | discriminate | discriminate].
Qed.

End Order.

(** ** Invariants of the servers [New] returns *)

Section Invariants.
Context `{External}.

Import GoStringsFacts GoStringsMore.

(** What every modifier of a list keeps along its successful calls holds
    after the loop when it held before and the loop returned no error. *)
Lemma applyMods_invariant (P : Server -> Prop) (mods : list Modifier)
      (s s' : Server) :
  Forall (fun m => forall a b, P a -> m a = (b, None) -> P b) mods ->
  P s ->
  applyMods mods s = (s', None) ->
  P s'.
Proof.
  intros Hmods. revert s.
  induction Hmods as [|m rest Hm _ IH]; intros s Hs Hrun; simpl in Hrun.
  - now injection Hrun as <-.
  - destruct (m s) as [s1 [e|]] eqn:Hms; [discriminate|].
    apply (IH s1); [now apply (Hm s) | exact Hrun].
Qed.

Lemma FactoryModifier_caConsistent (m : Modifier) (a b : Server) :
  FactoryModifier m -> caConsistent a -> m a = (b, None) -> caConsistent b.
Proof.
  intros [f | url | lim | bytes | raw] Ha.
  - rewrite WithFlags_eq. cbv zeta.
    destruct (ssh_ParsePrivateKey (CA f)); [|discriminate].
    destruct (String.eqb (Principals f) ""); [discriminate|].
    destruct (String.eqb (AuthURL f) "" || String.eqb (AuthURL f) "/");
      [discriminate|].
    intros [= <-]. reflexivity.
  - intros [= <-]. exact Ha.
  - intros [= <-]. exact Ha.
  - rewrite WithCA_eq. destruct (ssh_ParsePrivateKey bytes); [|discriminate].
    intros [= <-]. reflexivity.
  - rewrite WithPrincipals_eq. destruct (String.eqb raw ""); [discriminate|].
    intros [= <-]. exact Ha.
Qed.

Lemma FactoryModifier_principalsWellFormed (m : Modifier) (a b : Server) :
  FactoryModifier m ->
  principalsWellFormed a -> m a = (b, None) -> principalsWellFormed b.
Proof.
  intros [f | url | lim | bytes | raw] Ha.
  - rewrite WithFlags_eq. cbv zeta.
    destruct (ssh_ParsePrivateKey (CA f)); [|discriminate].
    destruct (String.eqb_spec (Principals f) "") as [Hp|Hp]; [discriminate|].
    destruct (String.eqb (AuthURL f) "" || String.eqb (AuthURL f) "/");
      [discriminate|].
    intros [= <-]. right. now exists (Principals f).
  - intros [= <-]. exact Ha.
  - intros [= <-]. exact Ha.
  - rewrite WithCA_eq. destruct (ssh_ParsePrivateKey bytes); [|discriminate].
    intros [= <-]. exact Ha.
  - rewrite WithPrincipals_eq.
    destruct (String.eqb_spec raw "") as [Hp|Hp]; [discriminate|].
    intros [= <-]. right. now exists raw.
Qed.

(** X15: in a server [New] returns from modifiers of the factory, the
    marshalled CA public key is the authorized-key form of the public key
    of the signer the server holds, and is empty while it holds none. *)
Theorem New_CA_consistent (r : Rand) (mods : list Modifier) (s : Server) :
  Forall FactoryModifier mods ->
  New r mods = (Some s, None) ->
  caConsistent s.
Proof.
  intros Hmods Hnew.
  apply New_Some in Hnew as (r' & pub & priv & s' & _ & Hrun & -> & _).
  change (caConsistent s').
  apply (applyMods_invariant caConsistent mods (initialServer r' pub priv) s');
    [|reflexivity | exact Hrun].
  clear Hrun. induction Hmods as [|m rest Hm _ IH]; [constructor|].
  constructor; [|exact IH].
  intros a b. now apply FactoryModifier_caConsistent.
Qed.

(** X16: in a server [New] returns from modifiers of the factory, the
    principals are either none at all or the split of a non-empty string:
    never the single empty name, and never a name with a comma in it. *)
Theorem New_principals_well_formed
    (r : Rand) (mods : list Modifier) (s : Server) :
  Forall FactoryModifier mods ->
  New r mods = (Some s, None) ->
  principalsWellFormed s /\
  principals s <> [""] /\
  Forall (fun p => ContainsByte p "," = false) (principals s).
Proof.
  intros Hmods Hnew.
  apply New_Some in Hnew as (r' & pub & priv & s' & _ & Hrun & -> & _).
  assert (principalsWellFormed s') as Hwf.
  { apply (applyMods_invariant principalsWellFormed mods
             (initialServer r' pub priv) s'); [|now left | exact Hrun].
    clear Hrun. induction Hmods as [|m rest Hm _ IH]; [constructor|].
    constructor; [|exact IH].
    intros a b. now apply FactoryModifier_principalsWellFormed. }
  split; [exact Hwf|]. simpl.
  destruct Hwf as [-> | (raw & Hraw & ->)].
  - split; [discriminate | constructor].
  - split; [|apply Split_no_sep].
    intros Hs. now apply Split_single_empty in Hs.
Qed.

End Invariants.

(** ** The further properties on the sample instance *)

Section SampleProperties.

#[local] Existing Instance Sample.external.

Import Sample.

Lemma New_keeps_generated_keys_witness :
  exists s,
    New 1%nat [WithFlags (flags "https://auth.example.com/" "alice,bob" caFile)]
      = (Some s, None) /\
    rng s = 3%nat /\ serverPub s = 1%nat /\ serverPriv s = 2%nat.
Proof.
  eexists. split; [vm_compute; reflexivity|].
  match goal with
  | |- rng ?s = _ /\ _ =>
      destruct (@New_keeps_generated_keys external 1%nat
                  [WithFlags (flags "https://auth.example.com/" "alice,bob" caFile)]
                  s)
        as (r' & pub & priv & Hk & Hr & Hpub & Hpriv)
  end.
  - repeat constructor.
  - vm_compute. reflexivity.
  - injection Hk as <- <- <-. now repeat split.
Defined.

Lemma New_WithFlags_server_witness :
  exists s,
    New 1%nat [WithFlags (flags "https://auth.example.com/" "alice,bob" caFile)]
      = (Some s, None) /\
    principals s = ["alice"; "bob"] /\ authURL s = "https://auth.example.com".
Proof.
  eexists. split; [vm_compute; reflexivity|].
  match goal with
  | |- principals ?s = _ /\ _ =>
      destruct (@New_WithFlags_server external 1%nat
                  (flags "https://auth.example.com/" "alice,bob" caFile) s)
        as (_ & Hu & Hp & _)
  end.
  - vm_compute. reflexivity.
  - split; [exact Hp | exact Hu].
Defined.

Lemma WithFlags_as_separate_modifiers_witness :
  New 1%nat ([WithTimeLimit Minute]
               ++ WithFlags (flags "https://auth.example.com/" "alice" caFile)
               :: [WithPrincipals "bob"])
  = New 1%nat ([WithTimeLimit Minute]
                 ++ flagModifiers (flags "https://auth.example.com/" "alice" caFile)
                 ++ [WithPrincipals "bob"]).
Proof.
  apply (@WithFlags_as_separate_modifiers external 1%nat [WithTimeLimit Minute]
           [WithPrincipals "bob"]
           (flags "https://auth.example.com/" "alice" caFile)).
  - constructor; [apply WithPrincipals_keeps_authURL | constructor].
  - discriminate.
  - discriminate.
Defined.


Lemma WithTimeLimit_accepts_any_duration_witness :
  exists s,
    New 1%nat [WithAuthURL "https://auth.example.com"; WithTimeLimit (-5)%Z]
      = (Some s, None) /\
    limit s = (-5)%Z.
Proof.
  apply (@WithTimeLimit_accepts_any_duration external 1%nat 3%nat 1%nat 2%nat
           "https://auth.example.com" (-5)%Z);
    [reflexivity | discriminate | discriminate].
Defined.

Lemma FactoryModifier_idempotent_witness :
  New 1%nat ([WithAuthURL "https://auth.example.com"]
               ++ [WithPrincipals "alice,bob"; WithPrincipals "alice,bob"]
               ++ [WithCA caFile])
  = New 1%nat ([WithAuthURL "https://auth.example.com"]
                 ++ [WithPrincipals "alice,bob"] ++ [WithCA caFile]).
Proof.
  apply (@FactoryModifier_idempotent external 1%nat
           [WithAuthURL "https://auth.example.com"] [WithCA caFile]
           (WithPrincipals "alice,bob")).
  constructor.
Defined.

Lemma WithPrincipals_count_witness :
  length (principals (set_principals ["john"; "root"; ""; "smith"] server0))
  = 4%nat.
Proof.
  apply (@WithPrincipals_count external "john,root,,smith" server0
           (set_principals ["john"; "root"; ""; "smith"] server0)).
  reflexivity.
Defined.

Lemma New_strips_one_slash_only_witness :
  exists s,
    New 1%nat [WithAuthURL ("https://auth.example.com" +:+ "//")]
      = (Some s, None) /\
    authURL s = "https://auth.example.com" +:+ "/".
Proof.
  apply (@New_strips_one_slash_only external 1%nat 3%nat 1%nat 2%nat
           "https://auth.example.com").
  reflexivity.
Defined.

Lemma New_CA_consistent_witness :
  exists s,
    New 1%nat [WithCA caFile; WithAuthURL "https://auth.example.com";
               WithCA (rev caFile)] = (Some s, None) /\
    caConsistent s.
Proof.
  eexists. split; [vm_compute; reflexivity|].
  apply (@New_CA_consistent external 1%nat
           [WithCA caFile; WithAuthURL "https://auth.example.com";
            WithCA (rev caFile)]).
  - repeat constructor.
  - vm_compute. reflexivity.
Defined.

Lemma New_principals_well_formed_witness :
  exists s,
    New 1%nat [WithPrincipals "alice"; WithAuthURL "https://auth.example.com";
               WithPrincipals ",bob"] = (Some s, None) /\
    principals s <> [""].
Proof.
  eexists. split; [vm_compute; reflexivity|].
  apply (@New_principals_well_formed external 1%nat
           [WithPrincipals "alice"; WithAuthURL "https://auth.example.com";
            WithPrincipals ",bob"]).
  - repeat constructor.
  - vm_compute. reflexivity.
Defined.

End SampleProperties.
